(** * CDSCO RAG pipeline: retrieval-augmented query core

    A shallow embedding of the notebook [CDSCO_RAG_with_Llama.ipynb]:
    the ingestion loop that collects PDF text, the two functions
    [ollama_llm] and [rag_chain] that answer a question, and the
    chunker, vector index and retriever these rely on. *)

From Equations Require Import Equations.
From Stdlib Require Import List Arith Lia Bool Ascii String Permutation.
From Stdlib Require Import Strings.Byte.
From Stdlib Require Import DecimalString.
From Stdlib Require DecimalNat Sorted.
Import ListNotations.
Open Scope string_scope.
Open Scope list_scope.

Set Implicit Arguments.

(** ** Python values that the notebook handles *)

(** A raised exception (a subclass of [Exception]): the name of its class
    and the text [str(e)]. *)
Record exn : Type := Exn { exc_class : string; exc_str : string }.

(** The outcome of a call that either returns or raises. *)
Inductive result (A : Type) : Type :=
| Ok (a : A)
| Raise (e : exn).
Arguments Ok {A} a.
Arguments Raise {A} e.

Definition bind_result {A B} (r : result A) (k : A -> result B) : result B :=
  match r with
  | Ok a => k a
  | Raise e => Raise e
  end.

Definition map_result {A B} (f : A -> B) (r : result A) : result B :=
  bind_result r (fun a => Ok (f a)).

(** [try: body except Exception as e: handler(e)] *)
Definition try_except {A} (body : result A) (handler : exn -> result A)
  : result A :=
  match body with
  | Ok a => Ok a
  | Raise e => handler e
  end.

(** The line feed of ["\n"]. *)
Definition LF : string := String "010"%char EmptyString.

(** [sep.join(parts)] *)
Definition join (sep : string) (parts : list string) : string :=
  String.concat sep parts.

(** [str(i)] for a non-negative integer. *)
Definition str_of_nat (i : nat) : string :=
  NilEmpty.string_of_uint (Nat.to_uint i).

(** [langchain_core.documents.Document]: the text and the [source] entry
    of its metadata. *)
Record Document : Type := mkDocument {
  page_content : string;
  source : string
}.

(** One entry of the [messages] list given to [ollama.chat]. *)
Record Message : Type := mkMessage { role : string; content : string }.

(** The value of [ollama.chat]; the notebook reads
    [response['message']['content']]. *)
Record ChatResponse : Type := mkChatResponse { message : Message }.

(** ** Calls to the providers

    The retriever and the chat model live outside the notebook.  Every
    call is recorded in a log, and a provider may answer differently
    depending on what was called before. *)

Inductive event : Type :=
| Invoke (question : string)
| Chat (model : string) (messages : list Message).

Definition log := list event.

Definition is_chat (e : event) : bool :=
  match e with Chat _ _ => true | Invoke _ => false end.

Definition chat_calls (l : log) : nat := List.length (filter is_chat l).

(** A computation that calls providers: from the log so far to an outcome
    and the extended log. *)
Definition io (A : Type) : Type := log -> result A * log.

Definition ret {A} (a : A) : io A := fun l => (Ok a, l).

Definition bind {A B} (m : io A) (k : A -> io B) : io B :=
  fun l =>
    match m l with
    | (Ok a, l') => k a l'
    | (Raise e, l') => (Raise e, l')
    end.

Notation "x <- m ;; k" := (bind m (fun x => k))
  (at level 61, m at next level, right associativity).

(** ** The RAG chain *)

Module Rag.
Section Orchestrator.

(** [retriever.invoke] and [ollama.chat], each given the log of the
    calls made before it. *)
Variable retriever_invoke : log -> string -> result (list Document).
Variable ollama_chat : log -> string -> list Message -> result ChatResponse.

Definition call_retriever (question : string) : io (list Document) :=
  fun l => (retriever_invoke l question, l ++ [Invoke question]).

Definition call_chat (model : string) (messages : list Message)
  : io ChatResponse :=
  fun l => (ollama_chat l model messages, l ++ [Chat model messages]).

(** The f-string of [ollama_llm]. *)
Definition formatted_prompt (question context : string) : string :=
  ("Question: " ++ question ++ LF ++ "Context: " ++ context ++ LF
     ++ "Answer:")%string.

Definition ollama_llm (question context : string) : io string :=
  response <- call_chat "llama3.2"
                [mkMessage "user" (formatted_prompt question context)] ;;
  ret (content (message response)).

Definition formatted_context (retrieved_docs : list Document) : string :=
  join (LF ++ LF)%string (map page_content retrieved_docs).

Definition rag_chain (question : string) : io string :=
  retrieved_docs <- call_retriever question ;;
  ollama_llm question (formatted_context retrieved_docs).

End Orchestrator.

(** The message list that [ollama_llm] sends for a question and the
    documents retrieved for it. *)
Definition sent (question : string) (retrieved_docs : list Document)
  : list Message :=
  [mkMessage "user"
     (formatted_prompt question (formatted_context retrieved_docs))].

(** What the specification asks of a failed generation: an exception of
    the class [GenerationFailure]. *)
Definition is_GenerationFailure (e : exn) : Prop :=
  exc_class e = "GenerationFailure".

(** Providers that do not look at the call history. *)
Definition deterministic_retriever
    (retriever_invoke : log -> string -> result (list Document)) : Prop :=
  forall l l' question, retriever_invoke l question = retriever_invoke l' question.

Definition deterministic_chat
    (ollama_chat : log -> string -> list Message -> result ChatResponse)
  : Prop :=
  forall l l' model messages,
    ollama_chat l model messages = ollama_chat l' model messages.

End Rag.

(** ** The chunker *)

Module Chunker.

(** Text as a sequence of characters. *)
Definition text := list ascii.

Record SourceDocument : Type := mkSourceDocument {
  id : string;
  doc_text : text
}.

Record Chunk : Type := mkChunk {
  source_id : string;
  sequence_index : nat;
  chunk_text : text;
  start_offset : nat
}.

Definition ConfigurationError : exn :=
  Exn "ConfigurationError" "chunk_overlap must be smaller than chunk_size".

(** Modelled from the spec: the sliding window of section 4.1.  The
    notebook hands chunking to the [RecursiveCharacterTextSplitter] class
    of langchain, whose code is not among the sources.  [rest] is the
    text from the current window position on, [offset] that position and
    [index] the number of chunks emitted so far.  A window that reaches
    the end of the text is the final one and is cut to what remains;
    otherwise the window moves on by [step] characters.  A step of 0
    would never move; [chunk] below only slides with a positive step, and
    the clause for 0 stops after one window. *)
Equations? slide (size step : nat) (sid : string) (rest : text)
    (offset index : nat) : list Chunk by wf (List.length rest) lt :=
  slide size step sid [] offset index := [];
  slide size step sid (c :: rest') offset index
    with (List.length (c :: rest') <=? size)%nat, step => {
    | true, _ := [mkChunk sid index (c :: rest') offset];
    | false, 0 := [mkChunk sid index (firstn size (c :: rest')) offset];
    | false, S p :=
        mkChunk sid index (firstn size (c :: rest')) offset
          :: slide size (S p) sid (skipn (S p) (c :: rest'))
               (offset + S p) (S index) }.
Proof.
  simpl. rewrite length_skipn. lia.
Qed.

(** Modelled from the spec: [chunk(doc, size, overlap)] of section 4.1,
    which rejects [overlap >= size] and otherwise slides a window of
    [size] characters that advances by [size - overlap]. *)
Definition chunk (doc : SourceDocument) (size overlap : nat)
  : result (list Chunk) :=
  if (overlap <? size)%nat
  then Ok (slide size (size - overlap) (id doc) (doc_text doc) 0 0)
  else Raise ConfigurationError.

(** The characters of the original text that a chunk spans. *)
Definition covers (c : Chunk) (i : nat) : Prop :=
  start_offset c <= i < start_offset c + List.length (chunk_text c).

(** The values given to the splitter in the notebook. *)
Definition chunk_size : nat := 512.
Definition chunk_overlap : nat := 50.

End Chunker.

(** ** The vector index and the retriever *)

Module VectorIndex.
Section Index.

(** Embedding vectors and similarity scores are kept abstract: a type of
    vectors, a type of scores, the similarity measure and the strict
    order on scores. *)
Variables vector score : Type.
Variable similarity : vector -> vector -> score.
Variable score_ltb : score -> score -> bool.

Record EmbeddedChunk : Type := mkEmbeddedChunk {
  chunk : Chunker.Chunk;
  embedding : vector
}.

(** The index: the embedded chunks in insertion order. *)
Definition index := list EmbeddedChunk.

(** Puts one scored chunk into a ranking: behind every entry whose score
    is not smaller, so that among equal scores the earlier wins. *)
Fixpoint place (x : Chunker.Chunk * score)
    (ranking : list (Chunker.Chunk * score))
  : list (Chunker.Chunk * score) :=
  match ranking with
  | [] => [x]
  | y :: ranking' =>
      if score_ltb (snd y) (snd x) then x :: y :: ranking'
      else y :: place x ranking'
  end.

(** An entry of the index with the score it gets for a query. *)
Definition scored (query : vector) (ec : EmbeddedChunk)
  : Chunker.Chunk * score :=
  (chunk ec, similarity query (embedding ec)).

Definition rank (query : vector) (idx : index)
  : list (Chunker.Chunk * score) :=
  fold_left (fun ranking ec => place (scored query ec) ranking) idx [].

(** Modelled from the spec: [search(vector, k)] of section 4.2, the [k]
    best entries in descending order of score, ties by insertion order.
    The notebook searches through a Chroma vector store, whose code is
    not among the sources. *)
Definition search (idx : index) (query : vector) (k : nat)
  : list (Chunker.Chunk * score) :=
  firstn k (rank query idx).

(** The embedding provider, which may fail. *)
Variable embed : string -> result vector.

(** Modelled from the spec: [retrieve(query, k)] of section 4.3: embed
    the query, search, and keep the chunks without their scores.  In the
    notebook this is [vectorstore.as_retriever()], again Chroma's and
    langchain's code. *)
Definition retrieve (idx : index) (query : string) (k : nat)
  : result (list Chunker.Chunk) :=
  bind_result (embed query) (fun v => Ok (map fst (search idx v k))).

End Index.

(** Modelled from the spec: the configuration surface of section 6 with its
    defaults.  The notebook passes 512 and 50 to the splitter and builds
    the retriever without naming a breadth. *)
Record Configuration : Type := mkConfiguration {
  chunk_size : nat;
  chunk_overlap : nat;
  retrieval_k : nat
}.

Definition reference_configuration : Configuration :=
  mkConfiguration Chunker.chunk_size Chunker.chunk_overlap 4.

(** The document that the retriever hands out for a chunk. *)
Definition document_of_chunk (c : Chunker.Chunk) : Document :=
  mkDocument (string_of_list_ascii (Chunker.chunk_text c)) (Chunker.source_id c).

(** Modelled from the spec: the retriever of the notebook as [rag_chain]
    calls it, [retrieve] over a fixed index with a fixed breadth; it does
    not look at the calls made before. *)
Definition as_retriever {vector score : Type}
    (similarity : vector -> vector -> score)
    (score_ltb : score -> score -> bool)
    (embed : string -> result vector)
    (idx : index vector) (k : nat)
  : log -> string -> result (list Document) :=
  fun _ question =>
    map_result (map document_of_chunk)
      (retrieve similarity score_ltb embed idx question k).

End VectorIndex.

(** ** Ingestion of the PDF documents *)

Module Ingestion.

Definition bytes := list byte.

(** [b"%PDF"] *)
Definition PDF_HEADER : bytes := [x25; x50; x44; x46].

Fixpoint startswith (prefix data : bytes) : bool :=
  match prefix, data with
  | [], _ => true
  | _ :: _, [] => false
  | p :: prefix', d :: data' => Byte.eqb p d && startswith prefix' data'
  end.

(** [needle in haystack] on bytes: [needle] occurs somewhere in
    [haystack]. *)
Fixpoint bytes_in (needle haystack : bytes) : bool :=
  startswith needle haystack
  || match haystack with
     | [] => false
     | _ :: haystack' => bytes_in needle haystack'
     end.

(** A [requests.Response]: its [text] and its [content]. *)
Record Response : Type := mkResponse {
  resp_text : string;
  resp_content : bytes
}.

(** A tag found by BeautifulSoup, with its attribute dictionary. *)
Record Tag : Type := mkTag { attrs : list (string * string) }.

Fixpoint get_attr (attributes : list (string * string)) (key : string)
  : option string :=
  match attributes with
  | [] => None
  | (k, v) :: attributes' =>
      if String.eqb k key then Some v else get_attr attributes' key
  end.

(** What is in the process after some iterations: the list [docs] and the
    lines printed so far. *)
Record State : Type := mkState {
  docs : list Document;
  stdout : list string
}.

Section Loop.

(** The world outside the notebook: [requests.get], the [iframe] that
    [BeautifulSoup(text, "html.parser").find("iframe")] gives for a page
    text, [urljoin], [fitz.open] and [page.get_text]. *)
Variable requests_get : string -> result Response.
Variable find_iframe : string -> option Tag.
Variable urljoin : string -> string -> string.
Variable page : Type.
Variable fitz_open : bytes -> result (list page).
Variable get_text : page -> result string.

(** The texts of the generator [page.get_text() for page in doc], up to
    the first call that raises. *)
Fixpoint get_texts (doc : list page) : result (list string) :=
  match doc with
  | [] => Ok []
  | p :: doc' =>
      bind_result (get_text p) (fun t =>
      bind_result (get_texts doc') (fun ts => Ok (t :: ts)))
  end.

(** The body of the [try] for row [i] with URL [jsp_url]; it gives the
    list [docs] as the iteration leaves it. *)
Definition fetch (i : nat) (jsp_url : string) (docs : list Document)
  : result (list Document) :=
  bind_result (requests_get jsp_url) (fun response =>
  match find_iframe (resp_text response) with
  | Some iframe =>
      match get_attr (attrs iframe) "src" with
      | Some src =>
          let pdf_url := urljoin jsp_url src in
          bind_result (requests_get pdf_url) (fun pdf_resp =>
          if bytes_in PDF_HEADER (firstn 4 (resp_content pdf_resp))
          then
            bind_result (fitz_open (resp_content pdf_resp)) (fun doc =>
            bind_result (get_texts doc) (fun texts =>
            let text := join LF texts in
            Ok (docs ++ [mkDocument text ("url_" ++ str_of_nat i)%string])))
          else Ok docs)
      | None => Ok docs
      end
  | None => Ok docs
  end).

Definition error_line (jsp_url : string) (e : exn) : string :=
  ("Error on " ++ jsp_url ++ ": " ++ exc_str e)%string.

(** One iteration of the loop: the [try] and its [except Exception]. *)
Definition iteration (i : nat) (jsp_url : string) (st : State)
  : result State :=
  try_except
    (map_result (fun docs' => mkState docs' (stdout st))
       (fetch i jsp_url (docs st)))
    (fun e => Ok (mkState (docs st) (stdout st ++ [error_line jsp_url e]))).

(** [for i, row in enumerate(reader)], from row number [i] on. *)
Fixpoint ingest_from (i : nat) (urls : list string) (st : State)
  : result State :=
  match urls with
  | [] => Ok st
  | jsp_url :: urls' =>
      bind_result (iteration i jsp_url st) (ingest_from (S i) urls')
  end.

Definition ingest (urls : list string) : result State :=
  ingest_from 0 urls (mkState [] []).

End Loop.
End Ingestion.

(** ** Sample providers, documents and pages *)

Module Sample.

Definition drug_a : Document :=
  mkDocument "Drug A: indicated for condition X." "url_0".
Definition drug_b : Document :=
  mkDocument "Drug B: indicated for condition Y." "url_1".

Definition two_docs_retriever (_ : log) (_ : string)
  : result (list Document) := Ok [drug_a; drug_b].

Definition empty_retriever (_ : log) (_ : string)
  : result (list Document) := Ok [].

Definition reply : ChatResponse :=
  mkChatResponse (mkMessage "assistant" "Drug A is indicated for condition X.").

Definition steady_chat (_ : log) (_ : string) (_ : list Message)
  : result ChatResponse := Ok reply.

Definition model_missing : exn :=
  Exn "ResponseError" "model 'llama3.2' not found".

Definition failing_chat (_ : log) (_ : string) (_ : list Message)
  : result ChatResponse := Raise model_missing.

(** The document of the end-to-end scenario. *)
Definition two_drugs : Chunker.SourceDocument :=
  Chunker.mkSourceDocument "url_0"
    (list_ascii_of_string
       "Drug A: indicated for condition X. Drug B: indicated for condition Y.").



(** A toy embedding: a text is embedded as its length, and two vectors
    are the closer the smaller their difference. *)
Definition closeness (a b : nat) : nat := 100 - (Nat.max a b - Nat.min a b).

Definition embed_by_length (s : string) : result nat := Ok (String.length s).

Definition chunk_of (n : nat) (s : string) : Chunker.Chunk :=
  Chunker.mkChunk "url_0" n (list_ascii_of_string s) 0.

Definition small_index : VectorIndex.index nat :=
  [ VectorIndex.mkEmbeddedChunk (chunk_of 0 "Drug A") 6;
    VectorIndex.mkEmbeddedChunk (chunk_of 1 "Drug B is") 9 ].

(** A small web: one page without an iframe, one whose iframe leads to
    an HTML page, one that cannot be reached and one that leads to a
    PDF of two pages. *)
Definition html_bytes : Ingestion.bytes := [x3c; x68; x74; x6d; x6c; x3e].
Definition pdf_bytes : Ingestion.bytes :=
  [x25; x50; x44; x46; x2d; x31; x2e; x34].

Definition web (url : string) : result Ingestion.Response :=
  if String.eqb url "https://cdsco.gov.in/plain.jsp"
  then Ok (Ingestion.mkResponse "plain" html_bytes)
  else if String.eqb url "https://cdsco.gov.in/framed_html.jsp"
  then Ok (Ingestion.mkResponse "framed_html" html_bytes)
  else if String.eqb url "https://cdsco.gov.in/framed_pdf.jsp"
  then Ok (Ingestion.mkResponse "framed_pdf" html_bytes)
  else if String.eqb url "page.html"
  then Ok (Ingestion.mkResponse "page" html_bytes)
  else if String.eqb url "drugs.pdf"
  then Ok (Ingestion.mkResponse "" pdf_bytes)
  else Raise (Exn "ConnectionError" "connection refused").

Definition iframe_of (page_text : string) : option Ingestion.Tag :=
  if String.eqb page_text "framed_html"
  then Some (Ingestion.mkTag [("src", "page.html")])
  else if String.eqb page_text "framed_pdf"
  then Some (Ingestion.mkTag [("src", "drugs.pdf")])
  else None.

Definition urljoin (_ : string) (src : string) : string := src.

Definition open_pdf (_ : Ingestion.bytes) : result (list string) :=
  Ok ["Drug A"; "Drug B"].

Definition page_text (p : string) : result string := Ok p.

Definition start : Ingestion.State := Ingestion.mkState [drug_a] [].

End Sample.

(** ** Collecting the links to the download pages *)

Module Links.

Definition base_url : string := "https://cdsco.gov.in".

(** [needle in haystack] on strings: [needle] occurs somewhere in
    [haystack]. *)
Fixpoint str_in (needle haystack : string) : bool :=
  String.prefix needle haystack
  || match haystack with
     | EmptyString => false
     | String _ haystack' => str_in needle haystack'
     end.

(** [tag[key]]: the value of the attribute, or a [KeyError]. *)
Definition getitem (tag : Ingestion.Tag) (key : string) : result string :=
  match Ingestion.get_attr (Ingestion.attrs tag) key with
  | Some value => Ok value
  | None => Raise (Exn "KeyError" ("'" ++ key ++ "'")%string)
  end.

Section Extraction.

(** [urllib.parse.urljoin], which raises a [ValueError] on some
    references, for example on one with an unclosed bracket in its host. *)
Variable urljoin : string -> string -> result string.

(** The loop over the tags that [soup.find_all('a', href=True)] gave, with
    the list [pdf_links] as it stands before the tags that remain.  The
    cell has no [try]: an exception of [a['href']] or of [urljoin] ends
    the loop. *)
Fixpoint collect (anchors : list Ingestion.Tag) (pdf_links : list string)
  : result (list string) :=
  match anchors with
  | [] => Ok pdf_links
  | a :: anchors' =>
      bind_result (getitem a "href") (fun href =>
      if str_in "download_file_division.jsp" href
      then
        bind_result (urljoin base_url href) (fun full_url =>
        collect anchors' (pdf_links ++ [full_url]))
      else collect anchors' pdf_links)
  end.

Definition extract_links (anchors : list Ingestion.Tag)
  : result (list string) :=
  collect anchors [].

End Extraction.
End Links.

(** ** Further sample pages *)

Module Cases.

(** A PDF of three pages whose second page cannot be read. *)
Definition three_pages (_ : Ingestion.bytes) : result (list string) :=
  Ok ["one"; "two"; "three"].

Definition second_page_unreadable (p : string) : result string :=
  if String.eqb p "two" then Raise (Exn "RuntimeError" "page is damaged")
  else Ok p.

Definition down_retriever (_ : log) (_ : string) : result (list Document) :=
  Raise (Exn "ConnectionError" "chroma is not reachable").

(** The anchors of a listing page: two downloads and one other link. *)
Definition listing : list Ingestion.Tag :=
  [ Ingestion.mkTag [("href", "/opencms/download_file_division.jsp?num_id=1")];
    Ingestion.mkTag [("class", "nav"); ("href", "/opencms/en/Home/")];
    Ingestion.mkTag [("href", "/opencms/download_file_division.jsp?num_id=2")] ].

(** A join that puts the reference behind the base, and refuses a
    reference with a bracket in it. *)
Definition glue (base relative : string) : result string :=
  if Links.str_in "[" relative
  then Raise (Exn "ValueError" "Invalid IPv6 URL")
  else Ok (base ++ relative)%string.


End Cases.

(** * Properties *)

Unset Implicit Arguments.

(** ** The RAG chain *)

Module RagFacts.
Import Rag.

Lemma join_nil sep : join sep [] = "".
Proof. reflexivity. Qed.

Lemma join_one sep a : join sep [a] = a.
Proof. reflexivity. Qed.

Lemma join_more sep a b parts :
  join sep (a :: b :: parts) = (a ++ sep ++ join sep (b :: parts))%string.
Proof. reflexivity. Qed.

(** The text of the first part opens the joined string. *)
Lemma join_head sep a parts :
  exists tail, join sep (a :: parts) = (a ++ tail)%string.
Proof.
  destruct parts as [|b parts].
  - exists "". rewrite join_one. clear. induction a; simpl; congruence.
  - exists (sep ++ join sep (b :: parts))%string. apply join_more.
Qed.

Lemma chat_calls_app l1 l2 : chat_calls (l1 ++ l2) = chat_calls l1 + chat_calls l2.
Proof. unfold chat_calls. rewrite filter_app, length_app. reflexivity. Qed.

Section Facts.

Variable retriever_invoke : log -> string -> result (list Document).
Variable ollama_chat : log -> string -> list Message -> result ChatResponse.

(** One run of [rag_chain], step by step: the retriever is called first;
    if it raises, so does the chain; otherwise the chat model is called
    once and its outcome is the outcome of the chain. *)
Lemma rag_chain_run question l :
  rag_chain retriever_invoke ollama_chat question l =
  match retriever_invoke l question with
  | Raise e => (Raise e, l ++ [Invoke question])
  | Ok retrieved_docs =>
      (map_result (fun response => content (message response))
         (ollama_chat (l ++ [Invoke question]) "llama3.2"
            (sent question retrieved_docs)),
       l ++ [Invoke question; Chat "llama3.2" (sent question retrieved_docs)])
  end.
Proof.
  unfold Rag.rag_chain, bind, call_retriever.
  destruct (retriever_invoke l question) as [retrieved_docs|e]; [|reflexivity].
  unfold ollama_llm, bind, call_chat, sent.
  rewrite <- app_assoc. simpl.
  destruct (ollama_chat _ _ _); reflexivity.
Qed.


(** C1: when the retriever returns documents and the chat model answers,
    [rag_chain] joins the texts of the documents in the order the
    retriever gave them, two line feeds between neighbours (so the text
    of the first document opens the context), sends one prompt of the
    form "Question: ...\nContext: ...\nAnswer:" holding the question and
    that context, and returns the content of the answer as it is. *)
Theorem rag_chain_prompt_and_answer question l retrieved_docs response :
  let context := join (LF ++ LF)%string (map page_content retrieved_docs) in
  let prompt :=
    ("Question: " ++ question ++ LF ++ "Context: " ++ context ++ LF
       ++ "Answer:")%string in
  retriever_invoke l question = Ok retrieved_docs ->
  ollama_chat (l ++ [Invoke question]) "llama3.2" [mkMessage "user" prompt]
    = Ok response ->
  rag_chain retriever_invoke ollama_chat question l
    = (Ok (content (message response)),
       l ++ [Invoke question; Chat "llama3.2" [mkMessage "user" prompt]])
  /\ (forall first others, retrieved_docs = first :: others ->
        exists tail, context = (page_content first ++ tail)%string).
Proof.
  intros context prompt Hretrieved Hchat. split.
  - rewrite rag_chain_run, Hretrieved.
    unfold sent, formatted_prompt, formatted_context.
    fold context. fold prompt. rewrite Hchat. reflexivity.
  - intros first others ->. subst context. simpl map. apply join_head.
Qed.

(** C4: when the retriever returns no document, [rag_chain] still calls
    the chat model, with a prompt whose context is empty, and the outcome
    of that call is the outcome of the chain. *)
Theorem rag_chain_empty_retrieval question l :
  let prompt :=
    ("Question: " ++ question ++ LF ++ "Context: " ++ "" ++ LF
       ++ "Answer:")%string in
  retriever_invoke l question = Ok [] ->
  rag_chain retriever_invoke ollama_chat question l
    = (map_result (fun response => content (message response))
         (ollama_chat (l ++ [Invoke question]) "llama3.2"
            [mkMessage "user" prompt]),
       l ++ [Invoke question; Chat "llama3.2" [mkMessage "user" prompt]])
  /\ (forall response,
        ollama_chat (l ++ [Invoke question]) "llama3.2"
          [mkMessage "user" prompt] = Ok response ->
        fst (rag_chain retriever_invoke ollama_chat question l)
          = Ok (content (message response))).
Proof.
  intros prompt Hretrieved.
  assert (Hrun : rag_chain retriever_invoke ollama_chat question l
    = (map_result (fun response => content (message response))
         (ollama_chat (l ++ [Invoke question]) "llama3.2"
            [mkMessage "user" prompt]),
       l ++ [Invoke question; Chat "llama3.2" [mkMessage "user" prompt]])).
  { rewrite rag_chain_run, Hretrieved. reflexivity. }
  split; [exact Hrun|].
  intros response Hchat. rewrite Hrun, Hchat. reflexivity.
Qed.

(** C5, as the code has it: when the call of the chat model raises,
    [rag_chain] raises that same exception, unchanged, so no string is
    returned; and the run has called the chat model exactly once. *)
Theorem rag_chain_generation_raises question l retrieved_docs e :
  retriever_invoke l question = Ok retrieved_docs ->
  ollama_chat (l ++ [Invoke question]) "llama3.2"
    (sent question retrieved_docs) = Raise e ->
  fst (rag_chain retriever_invoke ollama_chat question l) = Raise e
  /\ (forall answer,
        fst (rag_chain retriever_invoke ollama_chat question l) <> Ok answer)
  /\ chat_calls (snd (rag_chain retriever_invoke ollama_chat question l))
     = chat_calls l + 1.
Proof.
  intros Hretrieved Hchat.
  rewrite rag_chain_run, Hretrieved, Hchat. simpl fst. simpl snd.
  repeat split.
  - discriminate.
  - rewrite chat_calls_app. reflexivity.
Qed.

(** C9: with a retriever and a chat model that do not depend on what was
    called before, the outcome of [rag_chain] on a question is the same
    whatever the history, and so a second call right after a first one
    gives the same outcome as the first. *)
Theorem rag_chain_idempotent question l :
  deterministic_retriever retriever_invoke ->
  deterministic_chat ollama_chat ->
  (forall l', fst (rag_chain retriever_invoke ollama_chat question l')
              = fst (rag_chain retriever_invoke ollama_chat question l))
  /\ fst (rag_chain retriever_invoke ollama_chat question
            (snd (rag_chain retriever_invoke ollama_chat question l)))
     = fst (rag_chain retriever_invoke ollama_chat question l).
Proof.
  intros Hretriever Hchat.
  assert (Hany : forall l',
    fst (rag_chain retriever_invoke ollama_chat question l')
    = fst (rag_chain retriever_invoke ollama_chat question l)).
  { intros l'. rewrite !rag_chain_run.
    rewrite (Hretriever l' l question).
    destruct (retriever_invoke l question) as [retrieved_docs|e];
      [|reflexivity].
    simpl fst.
    rewrite (Hchat (l' ++ [Invoke question]) (l ++ [Invoke question])).
    reflexivity. }
  split; [exact Hany | apply Hany].
Qed.

End Facts.

(** A run with the sample retriever and chat model. *)
Lemma rag_chain_prompt_and_answer_sample :
  let question := "What is Drug A indicated for?" in
  let prompt :=
    ("Question: What is Drug A indicated for?" ++ LF
       ++ "Context: Drug A: indicated for condition X." ++ LF ++ LF
       ++ "Drug B: indicated for condition Y." ++ LF ++ "Answer:")%string in
  rag_chain Sample.two_docs_retriever Sample.steady_chat question []
  = (Ok "Drug A is indicated for condition X.",
     [Invoke question; Chat "llama3.2" [mkMessage "user" prompt]]).
Proof.
  intros question prompt.
  apply (rag_chain_prompt_and_answer Sample.two_docs_retriever
           Sample.steady_chat question []
           [Sample.drug_a; Sample.drug_b] Sample.reply); reflexivity.
Defined.

Lemma rag_chain_empty_retrieval_sample :
  rag_chain Sample.empty_retriever Sample.steady_chat "Which drugs?" []
  = (Ok "Drug A is indicated for condition X.",
     [Invoke "Which drugs?";
      Chat "llama3.2"
        [mkMessage "user"
           ("Question: Which drugs?" ++ LF ++ "Context: " ++ LF
              ++ "Answer:")%string]]).
Proof.
  apply (rag_chain_empty_retrieval Sample.empty_retriever Sample.steady_chat
           "Which drugs?" []). reflexivity.
Defined.

Lemma rag_chain_generation_raises_sample :
  fst (rag_chain Sample.empty_retriever Sample.failing_chat "Which drugs?" [])
  = Raise Sample.model_missing.
Proof.
  apply (rag_chain_generation_raises Sample.empty_retriever
           Sample.failing_chat "Which drugs?" [] []
           Sample.model_missing); reflexivity.
Defined.

Lemma rag_chain_idempotent_sample :
  fst (rag_chain Sample.two_docs_retriever Sample.steady_chat "Which drugs?"
         (snd (rag_chain Sample.two_docs_retriever Sample.steady_chat
                 "Which drugs?" [])))
  = fst (rag_chain Sample.two_docs_retriever Sample.steady_chat
           "Which drugs?" []).
Proof.
  apply (rag_chain_idempotent Sample.two_docs_retriever Sample.steady_chat
           "Which drugs?" []); intros ?; reflexivity.
Defined.

(** The claim C5 as the specification words it fails: the sample chat model
    raises a [ResponseError], and [rag_chain] passes that exception on, which
    is not of the class [GenerationFailure]. *)
Lemma rag_chain_no_GenerationFailure :
  Sample.failing_chat [Invoke "Which drugs?"] "llama3.2"
    (sent "Which drugs?" []) = Raise Sample.model_missing
  /\ ~ (exists e,
          fst (rag_chain Sample.empty_retriever Sample.failing_chat
                 "Which drugs?" []) = Raise e
          /\ is_GenerationFailure e).
Proof.
  split; [reflexivity|].
  intros [e [Hraise Hclass]].
  vm_compute in Hraise. injection Hraise as <-.
  unfold is_GenerationFailure in Hclass. discriminate Hclass.
Qed.

End RagFacts.

(** ** The chunker *)

Module ChunkerFacts.
Import Chunker.

Lemma slide_nil_iff size step sid rest offset index :
  slide size step sid rest offset index = [] <-> rest = [].
Proof.
  funelim (slide size step sid rest offset index).
  all: split; try discriminate; try reflexivity.
Qed.

Lemma slide_lookup size step sid rest offset index j c :
  0 < step ->
  nth_error (slide size step sid rest offset index) j = Some c ->
  source_id c = sid
  /\ sequence_index c = index + j
  /\ start_offset c = offset + j * step
  /\ chunk_text c = firstn size (skipn (j * step) rest)
  /\ j * step < List.length rest.
Proof.
  intros Hstep. revert j c.
  funelim (slide size step sid rest offset index); intros j c0 Hnth.
  - destruct j; discriminate.
  - apply Nat.leb_le in Heq.
    destruct j as [|j]; [|destruct j; discriminate].
    injection Hnth as <-. simpl.
    rewrite firstn_all2 by exact Heq.
    repeat split; lia.
  - lia.
  - apply Nat.leb_gt in Heq.
    destruct j as [|j].
    + injection Hnth as <-. simpl. repeat split; lia.
    + simpl in Hnth. apply H in Hnth; [|lia].
      destruct Hnth as (Hsid & Hidx & Hoff & Htext & Hlen).
      rewrite skipn_skipn in Htext.
      rewrite length_skipn in Hlen.
      replace (S j * S p) with (j * S p + S p) by lia.
      repeat split; try assumption; lia.
Qed.

(** A chunk that has a successor is a full window that stops short of the
    end of the text. *)
Lemma slide_successor size step sid rest offset index j c :
  nth_error (slide size step sid rest offset index) (S j) = Some c ->
  j * step + size < List.length rest.
Proof.
  revert j c.
  funelim (slide size step sid rest offset index); intros j c0 Hnth.
  - discriminate.
  - destruct j; discriminate.
  - destruct j; discriminate.
  - apply Nat.leb_gt in Heq.
    destruct j as [|j].
    + simpl. exact Heq.
    + simpl in Hnth. apply H in Hnth.
      rewrite length_skipn in Hnth.
      replace (S j * S p) with (j * S p + S p) by lia. lia.
Qed.

(** No gap: every position of the text lies in some window. *)
Lemma slide_covers size step sid rest offset index i :
  0 < step -> step <= size ->
  i < List.length rest ->
  exists j c,
    nth_error (slide size step sid rest offset index) j = Some c
    /\ covers c (offset + i).
Proof.
  intros Hstep Hsize. revert i.
  funelim (slide size step sid rest offset index); intros i Hi.
  - simpl in Hi. lia.
  - exists 0. eexists. split; [reflexivity|].
    unfold covers. simpl in *. lia.
  - lia.
  - apply Nat.leb_gt in Heq.
    destruct (Nat.lt_ge_cases i size) as [Hin|Hout].
    + exists 0. eexists. split; [reflexivity|].
      unfold covers. cbn [start_offset chunk_text].
      rewrite length_firstn. lia.
    + destruct (H Hstep Hsize (i - S p)) as (j & c0 & Hnth & Hcov).
      { rewrite length_skipn. lia. }
      exists (S j), c0. split; [exact Hnth|].
      unfold covers in *. lia.
Qed.

(** The text of a chunk is the text of the document at the offsets that the
    chunk spans. *)
Lemma window_text (T : text) size start i :
  start <= i < start + List.length (firstn size (skipn start T)) ->
  nth_error (firstn size (skipn start T)) (i - start) = nth_error T i.
Proof.
  intros Hi. rewrite length_firstn in Hi.
  rewrite nth_error_firstn.
  destruct (Nat.ltb_spec (i - start) size) as [_|Hge]; [|lia].
  rewrite nth_error_skipn. f_equal. lia.
Qed.

(** C2: for [overlap < size] the chunker returns chunks such that (1) every
    offset of the text lies in a chunk, which holds the character of the
    text at that offset; (2) of two consecutive chunks the first is a full
    window of [size] characters, the second starts [size - overlap]
    characters later, and the offsets they have in common are exactly the
    [overlap] offsets from the start of the second, with the same text;
    (3) chunk number [j] is the window at offset [j * (size - overlap)],
    cut to the text that remains. *)
Theorem chunk_covers_and_overlaps doc size overlap :
  overlap < size ->
  exists chunks,
    chunk doc size overlap = Ok chunks
    /\ (forall i, i < List.length (doc_text doc) ->
          exists c, In c chunks /\ covers c i
            /\ nth_error (chunk_text c) (i - start_offset c)
               = nth_error (doc_text doc) i)
    /\ (forall j c1 c2,
          nth_error chunks j = Some c1 ->
          nth_error chunks (S j) = Some c2 ->
          List.length (chunk_text c1) = size
          /\ start_offset c2 = start_offset c1 + (size - overlap)
          /\ (forall i, covers c1 i /\ covers c2 i
                 <-> start_offset c2 <= i < start_offset c2 + overlap)
          /\ skipn (size - overlap) (chunk_text c1)
             = firstn overlap (chunk_text c2))
    /\ (forall j c,
          nth_error chunks j = Some c ->
          source_id c = id doc
          /\ sequence_index c = j
          /\ start_offset c = j * (size - overlap)
          /\ chunk_text c = firstn size (skipn (start_offset c) (doc_text doc))).
Proof.
  intros Hvalid. unfold chunk.
  destruct (Nat.ltb_spec overlap size) as [_|Hge]; [|lia].
  eexists. split; [reflexivity|].
  set (step := size - overlap).
  assert (Hstep : 0 < step) by (subst step; lia).
  assert (Hsize : step <= size) by (subst step; lia).
  assert (Hshape : forall j c,
    nth_error (slide size step (id doc) (doc_text doc) 0 0) j = Some c ->
    source_id c = id doc /\ sequence_index c = j
    /\ start_offset c = j * step
    /\ chunk_text c = firstn size (skipn (start_offset c) (doc_text doc))
    /\ j * step < List.length (doc_text doc)).
  { intros j c Hnth.
    destruct (slide_lookup _ _ _ _ _ _ _ _ Hstep Hnth)
      as (Hsid & Hidx & Hoff & Htext & Hlen).
    simpl in Hidx, Hoff. rewrite Hoff. repeat split; assumption. }
  split; [|split].
  - intros i Hi.
    destruct (slide_covers size step (id doc) (doc_text doc) 0 0 i Hstep Hsize Hi)
      as (j & c & Hnth & Hcov).
    simpl in Hcov. exists c.
    split; [eapply nth_error_In; exact Hnth|]. split; [exact Hcov|].
    destruct (Hshape j c Hnth) as (_ & _ & _ & Htext & _).
    rewrite Htext. apply window_text. rewrite <- Htext. exact Hcov.
  - intros j c1 c2 Hc1 Hc2.
    pose proof (slide_successor _ _ _ _ _ _ _ _ Hc2) as Hfull.
    destruct (Hshape j c1 Hc1) as (_ & _ & Hoff1 & Htext1 & _).
    destruct (Hshape (S j) c2 Hc2) as (_ & _ & Hoff2 & Htext2 & _).
    assert (Hlen1 : List.length (chunk_text c1) = size).
    { rewrite Htext1, length_firstn, length_skipn. lia. }
    assert (Hlen2 : overlap < List.length (chunk_text c2)).
    { rewrite Htext2, length_firstn, length_skipn. lia. }
    assert (Hnext : start_offset c2 = start_offset c1 + step) by lia.
    split; [exact Hlen1|]. split; [exact Hnext|]. split.
    + intros i. unfold covers. lia.
    + rewrite Htext1, Htext2, Hnext.
      rewrite skipn_firstn_comm, skipn_skipn, firstn_firstn.
      replace (size - step) with overlap by lia.
      replace (Nat.min overlap size) with overlap by lia.
      replace (step + start_offset c1) with (start_offset c1 + step) by lia.
      reflexivity.
  - intros j c Hnth.
    destruct (Hshape j c Hnth) as (Hsid & Hidx & Hoff & Htext & _).
    repeat split; assumption.
Qed.

Lemma chunk_covers_and_overlaps_sample :
  exists chunks, chunk Sample.two_drugs 30 5 = Ok chunks.
Proof.
  destruct (chunk_covers_and_overlaps Sample.two_drugs 30 5) as (chunks & H & _).
  - lia.
  - exists chunks. exact H.
Defined.




(** C7: a configuration with [overlap >= size] is rejected with a
    [ConfigurationError], and no chunks are produced. *)
Theorem chunk_rejects_large_overlap doc size overlap :
  size <= overlap ->
  chunk doc size overlap = Raise ConfigurationError
  /\ exc_class ConfigurationError = "ConfigurationError"
  /\ (forall chunks, chunk doc size overlap <> Ok chunks).
Proof.
  intros Hinvalid. unfold chunk.
  destruct (Nat.ltb_spec overlap size) as [Hlt|_]; [lia|].
  repeat split. discriminate.
Qed.

Lemma chunk_rejects_large_overlap_sample :
  chunk Sample.two_drugs 30 30 = Raise ConfigurationError.
Proof.
  apply (chunk_rejects_large_overlap Sample.two_drugs 30 30). lia.
Defined.

(** The chunks of the end-to-end scenario: windows of 30 characters that
    advance by 25. *)
Example chunk_two_drugs :
  map (fun c => (start_offset c, string_of_list_ascii (chunk_text c)))
    match chunk Sample.two_drugs 30 5 with Ok chunks => chunks | Raise _ => [] end
  = [ (0, "Drug A: indicated for conditio");
      (25, "dition X. Drug B: indicated fo");
      (50, "ed for condition Y.") ].
Proof. reflexivity. Qed.

End ChunkerFacts.

(** ** The vector index and the retriever *)

Module VectorIndexFacts.
Import VectorIndex.

Section Facts.

Variables vector score : Type.
Variable similarity : vector -> vector -> score.
Variable score_ltb : score -> score -> bool.

Lemma place_perm x ranking :
  Permutation (place score_ltb x ranking) (x :: ranking).
Proof.
  induction ranking as [|y ranking IH]; simpl.
  - apply Permutation_refl.
  - destruct (score_ltb (snd y) (snd x)).
    + apply Permutation_refl.
    + eapply perm_trans; [apply perm_skip, IH | apply perm_swap].
Qed.

Lemma rank_from_perm query idx ranking :
  Permutation
    (fold_left
       (fun ranking ec => place score_ltb (scored similarity query ec) ranking)
       idx ranking)
    (ranking ++ map (scored similarity query) idx).
Proof.
  revert ranking.
  induction idx as [|ec idx IH]; intros ranking; simpl.
  - rewrite app_nil_r. apply Permutation_refl.
  - eapply perm_trans; [apply IH|].
    apply Permutation_trans
      with ((scored similarity query ec :: ranking)
              ++ map (scored similarity query) idx).
    + apply Permutation_app_tail, place_perm.
    + simpl. apply Permutation_middle.
Qed.

(** Ranking keeps every entry of the index, each once. *)
Lemma rank_perm query idx :
  Permutation (rank similarity score_ltb query idx)
    (map (scored similarity query) idx).
Proof. apply (rank_from_perm query idx []). Qed.

Lemma rank_length query idx :
  List.length (rank similarity score_ltb query idx) = List.length idx.
Proof.
  rewrite (Permutation_length (rank_perm query idx)). apply length_map.
Qed.

Lemma search_length idx query k :
  List.length (search similarity score_ltb idx query k)
  = Nat.min k (List.length idx).
Proof. unfold search. rewrite length_firstn, rank_length. reflexivity. Qed.

(** With fewer entries than asked for, the search gives the whole index. *)
Lemma search_all idx query k :
  List.length idx <= k ->
  Permutation (map fst (search similarity score_ltb idx query k))
    (map (@chunk vector) idx).
Proof.
  intros Hfew. unfold search.
  rewrite firstn_all2 by (rewrite rank_length; exact Hfew).
  rewrite (Permutation_map fst (rank_perm query idx)).
  rewrite map_map. apply Permutation_refl.
Qed.

(** C8: for a positive [k], searching the empty index gives the empty
    sequence, and searching an index of fewer than [k] entries gives all
    of them: as many results as entries, and the chunks of the results
    are the chunks of the index.  The search is a total function, it has
    no failing outcome. *)
Theorem search_small_index (query : vector) (k : nat) :
  0 < k ->
  search similarity score_ltb [] query k = []
  /\ (forall idx, List.length idx < k ->
        List.length (search similarity score_ltb idx query k)
          = List.length idx
        /\ Permutation (map fst (search similarity score_ltb idx query k))
             (map (@chunk vector) idx)).
Proof.
  intros Hk. split.
  - unfold search, rank. simpl. apply firstn_nil.
  - intros idx Hfew. split.
    + rewrite search_length. lia.
    + apply search_all. lia.
Qed.

Variable embed : string -> result vector.

(** C3: for a positive [k] and a query that the embedding provider
    embeds, [retrieve] returns [min k n] chunks of an index of [n]
    entries: never more than [k], and fewer than [k] only if the index
    holds fewer than [k].  [k] is an argument of [retrieve]; the reference
    configuration sets it to 4. *)
Theorem retrieve_at_most_k idx (query : string) (k : nat) (v : vector) :
  0 < k ->
  embed query = Ok v ->
  exists chunks,
    retrieve similarity score_ltb embed idx query k = Ok chunks
    /\ List.length chunks = Nat.min k (List.length idx)
    /\ List.length chunks <= k
    /\ (List.length chunks < k -> List.length idx < k)
    /\ retrieval_k reference_configuration = 4.
Proof.
  intros Hk Hembed. unfold retrieve. rewrite Hembed. simpl.
  eexists. split; [reflexivity|].
  rewrite length_map, search_length.
  repeat split; lia.
Qed.

End Facts.

Lemma search_small_index_sample :
  search Sample.closeness Nat.ltb [] 7 (retrieval_k reference_configuration)
  = [].
Proof.
  apply (search_small_index nat nat Sample.closeness Nat.ltb 7
           (retrieval_k reference_configuration)).
  simpl. lia.
Defined.

Lemma retrieve_at_most_k_sample :
  exists chunks,
    retrieve Sample.closeness Nat.ltb Sample.embed_by_length
      Sample.small_index "Drug B?" (retrieval_k reference_configuration)
    = Ok chunks
    /\ List.length chunks = 2.
Proof.
  destruct (retrieve_at_most_k nat nat Sample.closeness Nat.ltb
              Sample.embed_by_length Sample.small_index "Drug B?"
              (retrieval_k reference_configuration) 7)
    as (chunks & Hret & Hlen & _).
  - simpl. lia.
  - reflexivity.
  - exists chunks. split; [exact Hret | exact Hlen].
Defined.

(** The best match comes first: the query of length 7 is closer to the
    chunk embedded as 6 than to the one embedded as 9, and with one result
    asked for only that chunk is returned. *)
Example retrieve_ranked :
  retrieve Sample.closeness Nat.ltb Sample.embed_by_length
    Sample.small_index "Drug B?" 4
  = Ok [Sample.chunk_of 0 "Drug A"; Sample.chunk_of 1 "Drug B is"]
  /\ retrieve Sample.closeness Nat.ltb Sample.embed_by_length
       Sample.small_index "Drug B?" 1
     = Ok [Sample.chunk_of 0 "Drug A"].
Proof. split; reflexivity. Qed.

(** The chain over an empty index: nothing is retrieved, and the chat model
    is asked with an empty context. *)
Example rag_chain_over_empty_index :
  Rag.rag_chain
    (as_retriever Sample.closeness Nat.ltb Sample.embed_by_length []
       (retrieval_k reference_configuration))
    Sample.steady_chat "Which drugs?" []
  = (Ok "Drug A is indicated for condition X.",
     [Invoke "Which drugs?";
      Chat "llama3.2"
        [mkMessage "user"
           ("Question: Which drugs?" ++ LF ++ "Context: " ++ LF
              ++ "Answer:")%string]]).
Proof. reflexivity. Qed.

End VectorIndexFacts.

(** ** Ingestion *)

Module IngestionFacts.
Import Ingestion.

(** The test of the notebook, [b"%PDF" in content[:4]], holds exactly when
    the content begins with the four bytes of the header. *)
Lemma header_test_startswith (content : bytes) :
  bytes_in PDF_HEADER (firstn 4 content) = startswith PDF_HEADER content.
Proof.
  destruct content as [|a [|b [|c [|d content]]]];
    cbn [firstn bytes_in startswith PDF_HEADER];
    rewrite ?andb_false_r, ?orb_false_r; reflexivity.
Qed.

Section Facts.

Variable requests_get : string -> result Response.
Variable find_iframe : string -> option Tag.
Variable urljoin : string -> string -> string.
Variable page : Type.
Variable fitz_open : bytes -> result (list page).
Variable get_text : page -> result string.

(** One iteration, by the outcome of its [try] body. *)
Lemma iteration_run i jsp_url st :
  iteration requests_get find_iframe urljoin fitz_open get_text i jsp_url st
  = match fetch requests_get find_iframe urljoin fitz_open get_text
            i jsp_url (docs st) with
    | Ok docs' => Ok (mkState docs' (stdout st))
    | Raise e => Ok (mkState (docs st) (stdout st ++ [error_line jsp_url e]))
    end.
Proof.
  unfold iteration, try_except, map_result, bind_result.
  destruct (fetch _ _ _ _ _ _ _ _); reflexivity.
Qed.

(** No exception leaves an iteration. *)
Lemma iteration_returns i jsp_url st :
  exists st',
    iteration requests_get find_iframe urljoin fitz_open get_text
      i jsp_url st = Ok st'.
Proof.
  rewrite iteration_run. destruct (fetch _ _ _ _ _ _ _ _); eexists; reflexivity.
Qed.

Lemma ingest_from_returns urls : forall i st,
  exists st',
    ingest_from requests_get find_iframe urljoin fitz_open get_text
      i urls st = Ok st'.
Proof.
  induction urls as [|jsp_url urls IH]; intros i st; simpl.
  - exists st. reflexivity.
  - destruct (iteration_returns i jsp_url st) as [st1 ->]. simpl. apply IH.
Qed.

(** The loop over a list of rows is the loop over its first part followed
    by the loop over the rest, with the row numbers going on. *)
Lemma ingest_from_app urls1 : forall urls2 i st,
  ingest_from requests_get find_iframe urljoin fitz_open get_text
    i (urls1 ++ urls2) st
  = bind_result
      (ingest_from requests_get find_iframe urljoin fitz_open get_text
         i urls1 st)
      (ingest_from requests_get find_iframe urljoin fitz_open get_text
         (i + List.length urls1) urls2).
Proof.
  induction urls1 as [|jsp_url urls1 IH]; intros urls2 i st; simpl.
  - rewrite Nat.add_0_r. reflexivity.
  - destruct (iteration_returns i jsp_url st) as [st1 ->]. simpl.
    rewrite IH. replace (S i + List.length urls1)
      with (i + S (List.length urls1)) by lia.
    reflexivity.
Qed.

(** C10: (1) a page without an iframe and (2) an iframe whose download
    does not begin with the bytes [%PDF] leave [docs] and the printed
    lines as they were; (3) an iteration prints a line only if its [try]
    body raised, and then it prints the one line of the handler and adds
    no document; (4) whatever a row does, its iteration ends normally,
    and the rows after it are processed from the state it leaves. *)
Theorem ingestion_skips_and_continues :
  (forall i jsp_url st response,
      requests_get jsp_url = Ok response ->
      find_iframe (resp_text response) = None ->
      iteration requests_get find_iframe urljoin fitz_open get_text
        i jsp_url st = Ok st)
  /\ (forall i jsp_url st response iframe src pdf_resp,
        requests_get jsp_url = Ok response ->
        find_iframe (resp_text response) = Some iframe ->
        get_attr (attrs iframe) "src" = Some src ->
        requests_get (urljoin jsp_url src) = Ok pdf_resp ->
        startswith PDF_HEADER (resp_content pdf_resp) = false ->
        iteration requests_get find_iframe urljoin fitz_open get_text
          i jsp_url st = Ok st)
  /\ (forall i jsp_url st st',
        iteration requests_get find_iframe urljoin fitz_open get_text
          i jsp_url st = Ok st' ->
        stdout st' <> stdout st ->
        exists e,
          fetch requests_get find_iframe urljoin fitz_open get_text
            i jsp_url (docs st) = Raise e
          /\ st' = mkState (docs st) (stdout st ++ [error_line jsp_url e]))
  /\ (forall i urls1 jsp_url urls2 st,
        exists st1 st2 st3,
          ingest_from requests_get find_iframe urljoin fitz_open get_text
            i urls1 st = Ok st1
          /\ iteration requests_get find_iframe urljoin fitz_open get_text
               (i + List.length urls1) jsp_url st1 = Ok st2
          /\ ingest_from requests_get find_iframe urljoin fitz_open get_text
               (S (i + List.length urls1)) urls2 st2 = Ok st3
          /\ ingest_from requests_get find_iframe urljoin fitz_open get_text
               i (urls1 ++ jsp_url :: urls2) st = Ok st3).
Proof.
  split; [|split; [|split]].
  - intros i jsp_url [docs0 out0] response Hget Hnone.
    rewrite iteration_run. unfold fetch.
    rewrite Hget. simpl. rewrite Hnone. reflexivity.
  - intros i jsp_url [docs0 out0] response iframe src pdf_resp
      Hget Hframe Hsrc Hpdf Hheader.
    rewrite iteration_run. unfold fetch.
    rewrite Hget. cbn [bind_result]. rewrite Hframe, Hsrc.
    cbn zeta. rewrite Hpdf. cbn [bind_result].
    rewrite header_test_startswith, Hheader. reflexivity.
  - intros i jsp_url st st' Hiter Hprinted.
    rewrite iteration_run in Hiter.
    destruct (fetch _ _ _ _ _ _ _ _) as [docs'|e].
    + injection Hiter as <-. simpl in Hprinted. congruence.
    + exists e. split; [reflexivity|]. injection Hiter as <-. reflexivity.
  - intros i urls1 jsp_url urls2 st.
    destruct (ingest_from_returns urls1 i st) as [st1 H1].
    destruct (iteration_returns (i + List.length urls1) jsp_url st1)
      as [st2 H2].
    destruct (ingest_from_returns urls2 (S (i + List.length urls1)) st2)
      as [st3 H3].
    exists st1, st2, st3. repeat split; try assumption.
    rewrite ingest_from_app, H1. simpl. rewrite H2. simpl. exact H3.
Qed.

End Facts.

Lemma ingestion_skips_and_continues_sample :
  iteration Sample.web Sample.iframe_of Sample.urljoin Sample.open_pdf
    Sample.page_text 0 "https://cdsco.gov.in/plain.jsp" Sample.start
  = Ok Sample.start
  /\ iteration Sample.web Sample.iframe_of Sample.urljoin Sample.open_pdf
       Sample.page_text 1 "https://cdsco.gov.in/framed_html.jsp" Sample.start
     = Ok Sample.start.
Proof.
  destruct (ingestion_skips_and_continues Sample.web Sample.iframe_of
              Sample.urljoin string Sample.open_pdf Sample.page_text)
    as (Hplain & Hhtml & _).
  split.
  - apply (Hplain 0 "https://cdsco.gov.in/plain.jsp" Sample.start
             (mkResponse "plain" Sample.html_bytes)); reflexivity.
  - apply (Hhtml 1 "https://cdsco.gov.in/framed_html.jsp" Sample.start
             (mkResponse "framed_html" Sample.html_bytes)
             (mkTag [("src", "page.html")]) "page.html"
             (mkResponse "page" Sample.html_bytes)); reflexivity.
Defined.

(** A run over the small web: the first two rows are skipped without a
    word, the third is reported, the fourth adds its document, labelled
    with its row number. *)
Example ingest_small_web :
  ingest Sample.web Sample.iframe_of Sample.urljoin Sample.open_pdf
    Sample.page_text
    [ "https://cdsco.gov.in/plain.jsp";
      "https://cdsco.gov.in/framed_html.jsp";
      "https://cdsco.gov.in/gone.jsp";
      "https://cdsco.gov.in/framed_pdf.jsp" ]
  = Ok (mkState
          [mkDocument ("Drug A" ++ LF ++ "Drug B")%string "url_3"]
          ["Error on https://cdsco.gov.in/gone.jsp: connection refused"]).
Proof. reflexivity. Qed.

End IngestionFacts.

(** ** Strings *)

Module StringFacts.

Lemma append_assoc (a b c : string) :
  ((a ++ b) ++ c = a ++ (b ++ c))%string.
Proof. induction a as [|x a IH]; simpl; [reflexivity | rewrite IH; reflexivity]. Qed.

Lemma append_nil_r (a : string) : (a ++ "" = a)%string.
Proof. induction a as [|x a IH]; simpl; [reflexivity | rewrite IH; reflexivity]. Qed.

Lemma length_append (a b : string) :
  String.length (a ++ b) = String.length a + String.length b.
Proof. induction a as [|x a IH]; simpl; [reflexivity | rewrite IH; reflexivity]. Qed.

(** What [sep.join] gives for a list in two parts, neither of them empty. *)
Lemma join_app sep (parts1 parts2 : list string) :
  parts1 <> [] -> parts2 <> [] ->
  join sep (parts1 ++ parts2)
  = (join sep parts1 ++ sep ++ join sep parts2)%string.
Proof.
  intros H1 H2. induction parts1 as [|a parts1 IH]; [congruence|].
  destruct parts1 as [|b parts1].
  - destruct parts2 as [|c parts2]; [congruence|]. reflexivity.
  - change (join sep ((a :: b :: parts1) ++ parts2))
      with (a ++ sep ++ join sep ((b :: parts1) ++ parts2))%string.
    rewrite IH by discriminate.
    change (join sep (a :: b :: parts1))
      with (a ++ sep ++ join sep (b :: parts1))%string.
    rewrite !append_assoc. reflexivity.
Qed.

Lemma join_length sep (parts : list string) :
  String.length (join sep parts)
  = list_sum (map String.length parts)
    + String.length sep * (List.length parts - 1).
Proof.
  induction parts as [|a parts IH]; [simpl; lia|].
  destruct parts as [|b parts].
  - simpl. lia.
  - change (join sep (a :: b :: parts))
      with (a ++ sep ++ join sep (b :: parts))%string.
    rewrite !length_append, IH. simpl. lia.
Qed.

End StringFacts.

(** ** More on the RAG chain *)

Module RagMore.
Import Rag.

Section Facts.

Variable retriever_invoke : log -> string -> result (list Document).
Variable ollama_chat : log -> string -> list Message -> result ChatResponse.

(** When [retriever.invoke] raises, [rag_chain] raises the same exception
    and the chat model is not called at all. *)
Theorem rag_chain_retrieval_raises question l e :
  retriever_invoke l question = Raise e ->
  rag_chain retriever_invoke ollama_chat question l
    = (Raise e, l ++ [Invoke question])
  /\ chat_calls (snd (rag_chain retriever_invoke ollama_chat question l))
     = chat_calls l.
Proof.
  intros Hraise. rewrite RagFacts.rag_chain_run, Hraise. split; [reflexivity|].
  simpl snd. rewrite RagFacts.chat_calls_app.
  change (chat_calls [Invoke question]) with 0. lia.
Qed.

(** Whatever the providers do, one run of [rag_chain] keeps the log it
    found, records the retrieval first, and then records either nothing or
    one call of the model "llama3.2" with a single message of the role
    "user"; the model is called exactly when the retriever returned. *)
Theorem rag_chain_call_discipline question l :
  exists tail,
    snd (rag_chain retriever_invoke ollama_chat question l)
      = l ++ Invoke question :: tail
    /\ (tail = []
        \/ exists prompt, tail = [Chat "llama3.2" [mkMessage "user" prompt]])
    /\ (tail <> [] <->
        exists retrieved_docs, retriever_invoke l question = Ok retrieved_docs)
    /\ chat_calls (snd (rag_chain retriever_invoke ollama_chat question l))
       <= chat_calls l + 1.
Proof.
  rewrite RagFacts.rag_chain_run.
  destruct (retriever_invoke l question) as [retrieved_docs|e]; simpl snd.
  - eexists. split; [reflexivity|]. split; [|split].
    + right. eexists. reflexivity.
    + split; [intros _; eexists; reflexivity | discriminate].
    + rewrite RagFacts.chat_calls_app.
      change (chat_calls [Invoke question; Chat "llama3.2"
                (sent question retrieved_docs)]) with 1. lia.
  - exists []. split; [reflexivity|]. split; [|split].
    + left. reflexivity.
    + split; [congruence | intros [d Hd]; discriminate Hd].
    + rewrite RagFacts.chat_calls_app.
      change (chat_calls [Invoke question]) with 0. lia.
Qed.

End Facts.

Lemma rag_chain_retrieval_raises_sample :
  rag_chain Cases.down_retriever Sample.steady_chat "Which drugs?" []
  = (Raise (Exn "ConnectionError" "chroma is not reachable"),
     [Invoke "Which drugs?"]).
Proof.
  apply (rag_chain_retrieval_raises Cases.down_retriever Sample.steady_chat
           "Which drugs?" [] (Exn "ConnectionError" "chroma is not reachable")).
  reflexivity.
Defined.

(** The context of a retrieval result in two parts, neither empty, is the
    context of the first part, a blank line, and the context of the
    second. *)
Theorem formatted_context_app (docs1 docs2 : list Document) :
  docs1 <> [] -> docs2 <> [] ->
  formatted_context (docs1 ++ docs2)
  = (formatted_context docs1 ++ LF ++ LF ++ formatted_context docs2)%string.
Proof.
  intros H1 H2. unfold formatted_context. rewrite map_app.
  rewrite StringFacts.join_app.
  - rewrite StringFacts.append_assoc. reflexivity.
  - destruct docs1; [congruence | discriminate].
  - destruct docs2; [congruence | discriminate].
Qed.

Lemma formatted_context_app_sample :
  formatted_context ([Sample.drug_a] ++ [Sample.drug_b])
  = (formatted_context [Sample.drug_a] ++ LF ++ LF
       ++ formatted_context [Sample.drug_b])%string.
Proof.
  apply (formatted_context_app [Sample.drug_a] [Sample.drug_b]); discriminate.
Defined.

(** The size of the prompt: 28 characters of labels and line feeds, the
    question, the texts of the documents, and two line feeds between each
    two neighbours. *)
Theorem formatted_prompt_length question (retrieved_docs : list Document) :
  String.length (formatted_prompt question (formatted_context retrieved_docs))
  = 28 + String.length question
    + list_sum (map (fun d => String.length (page_content d)) retrieved_docs)
    + 2 * (List.length retrieved_docs - 1).
Proof.
  unfold formatted_prompt, formatted_context.
  rewrite !StringFacts.length_append, StringFacts.join_length.
  rewrite map_map, length_map. simpl. lia.
Qed.

(** Neither the question nor the texts are escaped.  A question that goes
    on with a line "Context: ..." gives the same prompt as that line being
    the start of the context; a document with a blank line in its text
    gives the same context as two documents; and the [source] of a
    document does not show in the context. *)
Theorem prompt_boundaries_not_marked question c1 c2 a b s s1 s2 others :
  formatted_prompt (question ++ LF ++ "Context: " ++ c1)%string c2
  = formatted_prompt question (c1 ++ LF ++ "Context: " ++ c2)%string
  /\ formatted_context (mkDocument (a ++ LF ++ LF ++ b)%string s :: others)
     = formatted_context (mkDocument a s1 :: mkDocument b s2 :: others).
Proof.
  split.
  - unfold formatted_prompt. rewrite !StringFacts.append_assoc. reflexivity.
  - unfold formatted_context. simpl map.
    destruct others as [|d others].
    + rewrite RagFacts.join_more, !RagFacts.join_one.
      rewrite !StringFacts.append_assoc. reflexivity.
    + simpl map. rewrite !RagFacts.join_more.
      rewrite !StringFacts.append_assoc. reflexivity.
Qed.

End RagMore.

(** ** More on the ingestion loop *)

Module IngestionMore.
Import Ingestion.

Lemma startswith_iff (prefix data : bytes) :
  startswith prefix data = true <-> exists rest, data = prefix ++ rest.
Proof.
  revert data. induction prefix as [|p prefix IH]; intros data.
  - split; [intros _; exists data; reflexivity | reflexivity].
  - destruct data as [|d data]; simpl.
    + split; [discriminate | intros [rest Hrest]; discriminate Hrest].
    + rewrite andb_true_iff, IH. split.
      * intros [Hpd [rest ->]]. apply Byte.byte_dec_bl in Hpd. subst d.
        exists rest. reflexivity.
      * intros [rest Hrest]. injection Hrest as -> ->.
        split; [apply Byte.byte_dec_lb; reflexivity | exists rest; reflexivity].
Qed.

Lemma header_test_iff (content : bytes) :
  bytes_in PDF_HEADER (firstn 4 content) = true
  <-> exists rest, content = PDF_HEADER ++ rest.
Proof.
  rewrite IngestionFacts.header_test_startswith. apply startswith_iff.
Qed.

(** The header test of the notebook accepts a download exactly when it
    begins with the four bytes [%PDF]; the same bytes further on do not
    count, and what follows the first four bytes does not matter. *)
Theorem header_test_exact (content : bytes) :
  (bytes_in PDF_HEADER (firstn 4 content) = true
   <-> exists rest, content = PDF_HEADER ++ rest)
  /\ (forall more, 4 <= List.length content ->
        bytes_in PDF_HEADER (firstn 4 (content ++ more))
        = bytes_in PDF_HEADER (firstn 4 content)).
Proof.
  split; [apply header_test_iff|].
  intros more Hlong. rewrite firstn_app.
  replace (4 - List.length content) with 0 by lia.
  rewrite firstn_O, app_nil_r. reflexivity.
Qed.

Lemma header_test_exact_sample :
  bytes_in PDF_HEADER (firstn 4 Sample.pdf_bytes) = true
  /\ bytes_in PDF_HEADER (firstn 4 (Sample.pdf_bytes ++ Sample.html_bytes))
     = bytes_in PDF_HEADER (firstn 4 Sample.pdf_bytes).
Proof.
  destruct (header_test_exact Sample.pdf_bytes) as [Hiff Hmore]. split.
  - apply Hiff. exists [x2d; x31; x2e; x34]. reflexivity.
  - apply Hmore. simpl. lia.
Defined.

Lemma str_of_nat_inj (i j : nat) : str_of_nat i = str_of_nat j -> i = j.
Proof.
  unfold str_of_nat. intros Heq.
  apply DecimalNat.Unsigned.to_uint_inj.
  assert (Hsome : Some (Nat.to_uint i) = Some (Nat.to_uint j)).
  { rewrite <- !NilEmpty.usu. rewrite Heq. reflexivity. }
  injection Hsome as ->. reflexivity.
Qed.

Lemma label_inj (i j : nat) :
  ("url_" ++ str_of_nat i)%string = ("url_" ++ str_of_nat j)%string -> i = j.
Proof. simpl. intros Heq. injection Heq as Heq. apply str_of_nat_inj, Heq. Qed.

Lemma app_one_neq {A} (l : list A) (x : A) : l ++ [x] <> l.
Proof.
  intros Heq. apply (f_equal (@List.length A)) in Heq.
  rewrite length_app in Heq. simpl in Heq. lia.
Qed.

(** Closes a case in which an iteration would have to leave a list as it
    was and make it longer at once. *)
Ltac no_change H :=
  exfalso; injection H; intros;
  match goal with
  | E : ?l ++ [_] = ?l |- _ => exact (app_one_neq _ _ E)
  | E : ?l = ?l ++ [_] |- _ => exact (app_one_neq _ _ (eq_sym E))
  end.

Section Facts.

Variable requests_get : string -> result Response.
Variable find_iframe : string -> option Tag.
Variable urljoin : string -> string -> string.
Variable page : Type.
Variable fitz_open : bytes -> result (list page).
Variable get_text : page -> result string.

Lemma get_texts_ok_iff (pages : list page) : forall texts,
  get_texts get_text pages = Ok texts
  <-> Forall2 (fun p t => get_text p = Ok t) pages texts.
Proof.
  induction pages as [|p pages IH]; intros texts; simpl.
  - split.
    + intros Heq. injection Heq as <-. constructor.
    + intros Hall. inversion Hall. reflexivity.
  - destruct (get_text p) as [t|e] eqn:Hp; simpl.
    + destruct (get_texts get_text pages) as [ts|e] eqn:Hrest; simpl.
      * split.
        -- intros Heq. injection Heq as <-. constructor; [exact Hp|].
           apply IH. reflexivity.
        -- intros Hall. inversion Hall as [|p0 t0 ps ts0 Hp0 Hrest0]; subst.
           apply IH in Hrest0. congruence.
      * split; [discriminate|].
        intros Hall. inversion Hall as [|p0 t0 ps ts0 Hp0 Hrest0]; subst.
        apply IH in Hrest0. discriminate Hrest0.
    + split; [discriminate|].
      intros Hall. inversion Hall; subst. congruence.
Qed.

(** One page that cannot be read makes the whole generator raise, with the
    exception of a page of the document. *)
Lemma get_texts_raises (pages : list page) p e :
  In p pages -> get_text p = Raise e ->
  exists e' q, get_texts get_text pages = Raise e'
               /\ In q pages /\ get_text q = Raise e'.
Proof.
  induction pages as [|p0 pages IH]; intros Hin Hp; [contradiction|].
  simpl. destruct (get_text p0) as [t|e0] eqn:Hp0; simpl.
  - destruct Hin as [->|Hin]; [congruence|].
    destruct (IH Hin Hp) as (e' & q & Hraise & Hq & Hqe).
    exists e', q. rewrite Hraise. simpl. auto.
  - exists e0, p0. auto.
Qed.

(** An iteration adds a document exactly when the page has an iframe with
    a [src], the download from there begins with [%PDF], PyMuPDF opens it
    and every page gives its text; the document then holds the texts of
    the pages joined by line feeds and is labelled with the row number. *)
Theorem iteration_adds_iff i jsp_url st d :
  iteration requests_get find_iframe urljoin fitz_open get_text i jsp_url st
    = Ok (mkState (docs st ++ [d]) (stdout st))
  <-> exists response iframe src pdf_resp rest pages texts,
        requests_get jsp_url = Ok response
        /\ find_iframe (resp_text response) = Some iframe
        /\ get_attr (attrs iframe) "src" = Some src
        /\ requests_get (urljoin jsp_url src) = Ok pdf_resp
        /\ resp_content pdf_resp = PDF_HEADER ++ rest
        /\ fitz_open (resp_content pdf_resp) = Ok pages
        /\ Forall2 (fun p t => get_text p = Ok t) pages texts
        /\ d = mkDocument (join LF texts) ("url_" ++ str_of_nat i)%string.
Proof.
  rewrite IngestionFacts.iteration_run. unfold fetch. split.
  - intros Hiter.
    destruct (requests_get jsp_url) as [response|e] eqn:Hget;
      cbn [bind_result] in Hiter; [|no_change Hiter].
    destruct (find_iframe (resp_text response)) as [iframe|] eqn:Hframe;
      [|no_change Hiter].
    destruct (get_attr (attrs iframe) "src") as [src|] eqn:Hsrc;
      [|no_change Hiter].
    cbn zeta in Hiter.
    destruct (requests_get (urljoin jsp_url src)) as [pdf_resp|e] eqn:Hpdf;
      cbn [bind_result] in Hiter; [|no_change Hiter].
    destruct (bytes_in PDF_HEADER (firstn 4 (resp_content pdf_resp)))
      eqn:Hheader; [|no_change Hiter].
    apply header_test_iff in Hheader. destruct Hheader as [rest Hrest].
    destruct (fitz_open (resp_content pdf_resp)) as [pages|e] eqn:Hopen;
      cbn [bind_result] in Hiter; [|no_change Hiter].
    destruct (get_texts get_text pages) as [texts|e] eqn:Htexts;
      cbn [bind_result] in Hiter; [|no_change Hiter].
    cbn zeta in Hiter. injection Hiter as Hdocs.
    apply app_inv_head in Hdocs. injection Hdocs as <-.
    exists response, iframe, src, pdf_resp, rest, pages, texts.
    repeat split; try assumption. apply get_texts_ok_iff, Htexts.
  - intros (response & iframe & src & pdf_resp & rest & pages & texts
            & Hget & Hframe & Hsrc & Hpdf & Hrest & Hopen & Htexts & ->).
    rewrite Hget. cbn [bind_result]. rewrite Hframe, Hsrc. cbn zeta.
    rewrite Hpdf. cbn [bind_result].
    assert (Hheader : bytes_in PDF_HEADER (firstn 4 (resp_content pdf_resp))
                      = true).
    { apply header_test_iff. exists rest. exact Hrest. }
    rewrite Hheader, Hopen. cbn [bind_result].
    apply get_texts_ok_iff in Htexts. rewrite Htexts. reflexivity.
Qed.

(** An iteration leaves everything as it was exactly when the page could be
    fetched and either has no iframe, or its iframe has no [src], or the
    download from the [src] arrived and does not begin with [%PDF]. *)
Theorem iteration_skips_iff i jsp_url st :
  iteration requests_get find_iframe urljoin fitz_open get_text i jsp_url st
    = Ok st
  <-> exists response,
        requests_get jsp_url = Ok response
        /\ (find_iframe (resp_text response) = None
            \/ (exists iframe,
                  find_iframe (resp_text response) = Some iframe
                  /\ get_attr (attrs iframe) "src" = None)
            \/ (exists iframe src pdf_resp,
                  find_iframe (resp_text response) = Some iframe
                  /\ get_attr (attrs iframe) "src" = Some src
                  /\ requests_get (urljoin jsp_url src) = Ok pdf_resp
                  /\ ~ (exists rest, resp_content pdf_resp = PDF_HEADER ++ rest))).
Proof.
  rewrite IngestionFacts.iteration_run. unfold fetch.
  destruct st as [docs0 out0]. cbn [docs stdout]. split.
  - intros Hiter.
    destruct (requests_get jsp_url) as [response|e] eqn:Hget;
      cbn [bind_result] in Hiter; [|no_change Hiter].
    exists response. split; [reflexivity|].
    destruct (find_iframe (resp_text response)) as [iframe|] eqn:Hframe;
      [|left; reflexivity].
    right.
    destruct (get_attr (attrs iframe) "src") as [src|] eqn:Hsrc;
      [|left; exists iframe; split; [reflexivity | exact Hsrc]].
    right. cbn zeta in Hiter.
    destruct (requests_get (urljoin jsp_url src)) as [pdf_resp|e] eqn:Hpdf;
      cbn [bind_result] in Hiter; [|no_change Hiter].
    exists iframe, src, pdf_resp. repeat split; try assumption.
    intros Hrest. apply header_test_iff in Hrest. rewrite Hrest in Hiter.
    destruct (fitz_open (resp_content pdf_resp)) as [pages|e];
      cbn [bind_result] in Hiter; [|no_change Hiter].
    destruct (get_texts get_text pages) as [texts|e];
      cbn [bind_result] in Hiter; [|no_change Hiter].
    cbn zeta in Hiter. no_change Hiter.
  - intros (response & Hget & Hcases). rewrite Hget. cbn [bind_result].
    destruct Hcases as [Hnone | [(iframe & Hframe & Hsrc)
                                | (iframe & src & pdf_resp & Hframe & Hsrc
                                   & Hpdf & Hheader)]].
    + rewrite Hnone. reflexivity.
    + rewrite Hframe, Hsrc. reflexivity.
    + rewrite Hframe, Hsrc. cbn zeta. rewrite Hpdf. cbn [bind_result].
      destruct (bytes_in PDF_HEADER (firstn 4 (resp_content pdf_resp)))
        eqn:Htest; [|reflexivity].
      exfalso. apply Hheader, header_test_iff, Htest.
Qed.

(** One unreadable page costs the whole PDF: if a page of an opened PDF
    raises in [get_text], the iteration adds no document, not even for the
    pages read before, and prints the error line of a page that raised. *)
Theorem unreadable_page_drops_document
    i jsp_url st response iframe src pdf_resp rest pages p e0 :
  requests_get jsp_url = Ok response ->
  find_iframe (resp_text response) = Some iframe ->
  get_attr (attrs iframe) "src" = Some src ->
  requests_get (urljoin jsp_url src) = Ok pdf_resp ->
  resp_content pdf_resp = PDF_HEADER ++ rest ->
  fitz_open (resp_content pdf_resp) = Ok pages ->
  In p pages -> get_text p = Raise e0 ->
  exists e q,
    In q pages /\ get_text q = Raise e
    /\ iteration requests_get find_iframe urljoin fitz_open get_text
         i jsp_url st
       = Ok (mkState (docs st) (stdout st ++ [error_line jsp_url e])).
Proof.
  intros Hget Hframe Hsrc Hpdf Hrest Hopen Hin Hp.
  destruct (get_texts_raises pages p e0 Hin Hp) as (e & q & Hraise & Hq & Hqe).
  exists e, q. split; [exact Hq|]. split; [exact Hqe|].
  rewrite IngestionFacts.iteration_run. unfold fetch.
  rewrite Hget. cbn [bind_result]. rewrite Hframe, Hsrc. cbn zeta.
  rewrite Hpdf. cbn [bind_result].
  assert (Hheader : bytes_in PDF_HEADER (firstn 4 (resp_content pdf_resp))
                    = true).
  { apply header_test_iff. exists rest. exact Hrest. }
  rewrite Hheader, Hopen. cbn [bind_result]. rewrite Hraise. reflexivity.
Qed.

(** What the [try] body does to [docs] does not depend on [docs]: it
    appends what it would append to the empty list. *)
Lemma fetch_frame i jsp_url (docs0 : list Document) :
  fetch requests_get find_iframe urljoin fitz_open get_text i jsp_url docs0
  = map_result (fun added => docs0 ++ added)
      (fetch requests_get find_iframe urljoin fitz_open get_text i jsp_url []).
Proof.
  unfold fetch, map_result.
  destruct (requests_get jsp_url) as [response|e]; cbn [bind_result];
    [|reflexivity].
  destruct (find_iframe (resp_text response)) as [iframe|];
    [|cbn [bind_result]; rewrite app_nil_r; reflexivity].
  destruct (get_attr (attrs iframe) "src") as [src|];
    [|cbn [bind_result]; rewrite app_nil_r; reflexivity].
  cbn zeta.
  destruct (requests_get (urljoin jsp_url src)) as [pdf_resp|e];
    cbn [bind_result]; [|reflexivity].
  destruct (bytes_in PDF_HEADER (firstn 4 (resp_content pdf_resp)));
    [|cbn [bind_result]; rewrite app_nil_r; reflexivity].
  destruct (fitz_open (resp_content pdf_resp)) as [pages|e];
    cbn [bind_result]; [|reflexivity].
  destruct (get_texts get_text pages) as [texts|e]; cbn [bind_result];
    reflexivity.
Qed.

(** From the empty list the [try] body gives no document or one, labelled
    with the row number. *)
Lemma fetch_adds_at_most_one i jsp_url added :
  fetch requests_get find_iframe urljoin fitz_open get_text i jsp_url []
    = Ok added ->
  added = []
  \/ exists d, added = [d] /\ source d = ("url_" ++ str_of_nat i)%string.
Proof.
  unfold fetch.
  destruct (requests_get jsp_url) as [response|e]; cbn [bind_result];
    [|discriminate].
  destruct (find_iframe (resp_text response)) as [iframe|];
    [|intros H; injection H as <-; left; reflexivity].
  destruct (get_attr (attrs iframe) "src") as [src|];
    [|intros H; injection H as <-; left; reflexivity].
  cbn zeta.
  destruct (requests_get (urljoin jsp_url src)) as [pdf_resp|e];
    cbn [bind_result]; [|discriminate].
  destruct (bytes_in PDF_HEADER (firstn 4 (resp_content pdf_resp)));
    [|intros H; injection H as <-; left; reflexivity].
  destruct (fitz_open (resp_content pdf_resp)) as [pages|e];
    cbn [bind_result]; [|discriminate].
  destruct (get_texts get_text pages) as [texts|e]; cbn [bind_result];
    [|discriminate].
  intros H. injection H as <-. right. eexists. split; reflexivity.
Qed.

(** What one iteration appends to [docs] and to the printed lines. *)
Lemma iteration_effect i jsp_url :
  exists added lines,
    (forall st,
        iteration requests_get find_iframe urljoin fitz_open get_text
          i jsp_url st
        = Ok (mkState (docs st ++ added) (stdout st ++ lines)))
    /\ ((added = [] /\ lines = []
         /\ fetch requests_get find_iframe urljoin fitz_open get_text
              i jsp_url [] = Ok [])
        \/ (exists d, added = [d] /\ lines = []
              /\ source d = ("url_" ++ str_of_nat i)%string
              /\ fetch requests_get find_iframe urljoin fitz_open get_text
                   i jsp_url [] = Ok [d])
        \/ (exists e, added = [] /\ lines = [error_line jsp_url e]
              /\ fetch requests_get find_iframe urljoin fitz_open get_text
                   i jsp_url [] = Raise e)).
Proof.
  destruct (fetch requests_get find_iframe urljoin fitz_open get_text
              i jsp_url []) as [added|e] eqn:Hfetch.
  - exists added, []. split.
    + intros st. rewrite IngestionFacts.iteration_run, fetch_frame, Hfetch.
      simpl. rewrite app_nil_r. reflexivity.
    + destruct (fetch_adds_at_most_one _ _ _ Hfetch) as [->|(d & -> & Hd)].
      * left. auto.
      * right. left. exists d. auto.
  - exists [], [error_line jsp_url e]. split.
    + intros st. rewrite IngestionFacts.iteration_run, fetch_frame, Hfetch.
      simpl. rewrite app_nil_r. reflexivity.
    + right. right. exists e. auto.
Qed.

Lemma forall2_in {A B} {R : A -> B -> Prop} {l l' a} :
  Forall2 R l l' -> In a l -> exists b, In b l' /\ R a b.
Proof.
  induction 1 as [|x y l l' Hxy Hrest IH]; intros Hin; [contradiction|].
  destruct Hin as [->|Hin].
  - exists y. split; [left; reflexivity | exact Hxy].
  - destruct (IH Hin) as (b & Hb & Hab). exists b. split; [right|]; assumption.
Qed.

(** Documents labelled with strictly increasing row numbers have pairwise
    different labels. *)
Lemma increasing_labels_nodup (R : Document -> nat -> Prop) added rows :
  (forall d j, R d j -> source d = ("url_" ++ str_of_nat j)%string) ->
  Forall2 R added rows ->
  Sorted.StronglySorted lt rows ->
  NoDup (map source added).
Proof.
  intros Hlabel Hall. induction Hall as [|d j added rows Hdj Hrest IH];
    intros Hsorted; [constructor|].
  apply Sorted.StronglySorted_inv in Hsorted. destruct Hsorted as [Hsorted Hlt].
  simpl. constructor; [|apply IH, Hsorted].
  intros Hin. apply in_map_iff in Hin. destruct Hin as (d' & Hsame & Hd').
  destruct (forall2_in Hrest Hd') as (j' & Hj' & Hdj').
  rewrite Forall_forall in Hlt. specialize (Hlt j' Hj').
  apply Hlabel in Hdj, Hdj'. rewrite Hdj, Hdj' in Hsame.
  apply label_inj in Hsame. lia.
Qed.

(** The whole loop from row [i] on: what it appends, which rows the new
    documents come from, and where the printed lines come from. *)
Lemma ingest_from_trace urls : forall i,
  exists added lines rows,
    (forall st,
        ingest_from requests_get find_iframe urljoin fitz_open get_text
          i urls st
        = Ok (mkState (docs st ++ added) (stdout st ++ lines)))
    /\ List.length added + List.length lines <= List.length urls
    /\ Forall2
         (fun d j =>
            i <= j
            /\ source d = ("url_" ++ str_of_nat j)%string
            /\ exists jsp_url,
                 nth_error urls (j - i) = Some jsp_url
                 /\ fetch requests_get find_iframe urljoin fitz_open get_text
                      j jsp_url [] = Ok [d])
         added rows
    /\ Sorted.StronglySorted lt rows
    /\ (forall line, In line lines ->
          exists j jsp_url e,
            i <= j
            /\ nth_error urls (j - i) = Some jsp_url
            /\ fetch requests_get find_iframe urljoin fitz_open get_text
                 j jsp_url [] = Raise e
            /\ line = error_line jsp_url e).
Proof.
  induction urls as [|jsp_url urls IH]; intros i.
  - exists [], [], []. repeat split.
    + intros [docs0 out0]. simpl. rewrite !app_nil_r. reflexivity.
    + simpl. lia.
    + constructor.
    + constructor.
    + intros line [].
  - destruct (iteration_effect i jsp_url) as (added0 & lines0 & Hrun0 & Hcase).
    destruct (IH (S i)) as (added1 & lines1 & rows1 & Hrun1 & Hcount & Hdocs
                            & Hsorted & Hlines).
    assert (Hshift : forall j, S i <= j -> j - i = S (j - S i)) by (intros; lia).
    assert (Hdocs' : Forall2
         (fun d j =>
            i <= j
            /\ source d = ("url_" ++ str_of_nat j)%string
            /\ exists u,
                 nth_error (jsp_url :: urls) (j - i) = Some u
                 /\ fetch requests_get find_iframe urljoin fitz_open get_text
                      j u [] = Ok [d])
         added1 rows1).
    { eapply Forall2_impl; [|exact Hdocs].
      intros d j (Hj & Hsrc & u & Hu & Hfetch).
      split; [lia|]. split; [exact Hsrc|]. exists u.
      rewrite (Hshift j Hj). auto. }
    assert (Hlater : Forall (lt i) rows1).
    { clear - Hdocs. induction Hdocs as [|d j added rows Hdj Hrest IHd];
        constructor; [lia | exact IHd]. }
    assert (Hlines' : forall line, In line lines1 ->
          exists j u e,
            i <= j
            /\ nth_error (jsp_url :: urls) (j - i) = Some u
            /\ fetch requests_get find_iframe urljoin fitz_open get_text
                 j u [] = Raise e
            /\ line = error_line u e).
    { intros line Hin.
      destruct (Hlines line Hin) as (j & u & e & Hj & Hu & Hfetch & Hline).
      exists j, u, e. rewrite (Hshift j Hj). repeat split; auto; lia. }
    assert (Hrun : forall st,
        ingest_from requests_get find_iframe urljoin fitz_open get_text
          i (jsp_url :: urls) st
        = Ok (mkState (docs st ++ added0 ++ added1)
                (stdout st ++ lines0 ++ lines1))).
    { intros st. simpl. rewrite Hrun0. simpl. rewrite Hrun1. simpl.
      rewrite <- !app_assoc. reflexivity. }
    destruct Hcase as [(-> & -> & _)
                      | [(d & -> & -> & Hsrc & Hfetch)
                        | (e & -> & -> & Hfetch)]].
    + exists added1, lines1, rows1.
      repeat split; try assumption. simpl. lia.
    + exists (d :: added1), lines1, (i :: rows1).
      repeat split; try assumption.
      * simpl. lia.
      * constructor; [|exact Hdocs'].
        split; [lia|]. split; [exact Hsrc|]. exists jsp_url.
        rewrite Nat.sub_diag. auto.
      * constructor; assumption.
    + exists added1, (error_line jsp_url e :: lines1), rows1.
      repeat split; try assumption.
      * simpl. lia.
      * intros line [<-|Hin]; [|apply Hlines', Hin].
        exists i, jsp_url, e. rewrite Nat.sub_diag. auto.
Qed.

(** Ingestion only appends: from any state, the loop over some rows keeps
    the documents and the printed lines that were there, in their order,
    adds at most one document or one line per row, and what it adds is the
    same whatever was there before. *)
Theorem ingest_from_extends i urls :
  exists added lines,
    (forall st,
        ingest_from requests_get find_iframe urljoin fitz_open get_text
          i urls st
        = Ok (mkState (docs st ++ added) (stdout st ++ lines)))
    /\ List.length added + List.length lines <= List.length urls.
Proof.
  destruct (ingest_from_trace urls i) as (added & lines & rows & Hrun & Hcount & _).
  exists added, lines. split; assumption.
Qed.

(** Every document of the corpus can be traced: it is the document that
    the [try] body gives for one row of the list, it is labelled with the
    number of that row, and no two documents carry the same label.  Every
    printed line is the error line of a row whose [try] body raised. *)
Theorem ingest_traceable urls :
  exists st,
    ingest requests_get find_iframe urljoin fitz_open get_text urls = Ok st
    /\ NoDup (map source (docs st))
    /\ (forall d, In d (docs st) ->
          exists j jsp_url,
            nth_error urls j = Some jsp_url
            /\ source d = ("url_" ++ str_of_nat j)%string
            /\ fetch requests_get find_iframe urljoin fitz_open get_text
                 j jsp_url [] = Ok [d])
    /\ (forall line, In line (stdout st) ->
          exists j jsp_url e,
            nth_error urls j = Some jsp_url
            /\ fetch requests_get find_iframe urljoin fitz_open get_text
                 j jsp_url [] = Raise e
            /\ line = error_line jsp_url e).
Proof.
  destruct (ingest_from_trace urls 0)
    as (added & lines & rows & Hrun & _ & Hdocs & Hsorted & Hlines).
  exists (mkState added lines). unfold ingest. rewrite Hrun.
  split; [reflexivity|]. cbn [docs stdout]. split; [|split].
  - eapply increasing_labels_nodup; [|exact Hdocs|exact Hsorted].
    intros d j (_ & Hsrc & _). exact Hsrc.
  - intros d Hd. destruct (forall2_in Hdocs Hd) as (j & _ & _ & Hsrc & u & Hu & Hf).
    exists j, u. rewrite Nat.sub_0_r in Hu. auto.
  - intros line Hin.
    destruct (Hlines line Hin) as (j & u & e & _ & Hu & Hf & Hline).
    exists j, u, e. rewrite Nat.sub_0_r in Hu. auto.
Qed.

End Facts.

Lemma iteration_adds_iff_sample :
  iteration Sample.web Sample.iframe_of Sample.urljoin Sample.open_pdf
    Sample.page_text 3 "https://cdsco.gov.in/framed_pdf.jsp" Sample.start
  = Ok (mkState
          (docs Sample.start
             ++ [mkDocument (join LF ["Drug A"; "Drug B"]) "url_3"])
          (stdout Sample.start)).
Proof.
  apply (iteration_adds_iff Sample.web Sample.iframe_of Sample.urljoin string
           Sample.open_pdf Sample.page_text 3
           "https://cdsco.gov.in/framed_pdf.jsp" Sample.start).
  exists (mkResponse "framed_pdf" Sample.html_bytes),
         (mkTag [("src", "drugs.pdf")]), "drugs.pdf",
         (mkResponse "" Sample.pdf_bytes), [x2d; x31; x2e; x34],
         ["Drug A"; "Drug B"], ["Drug A"; "Drug B"].
  repeat split; try reflexivity.
  repeat constructor.
Defined.

Lemma unreadable_page_drops_document_sample :
  exists e,
    iteration Sample.web Sample.iframe_of Sample.urljoin Cases.three_pages
      Cases.second_page_unreadable 3 "https://cdsco.gov.in/framed_pdf.jsp"
      Sample.start
    = Ok (mkState (docs Sample.start)
            (stdout Sample.start
               ++ [error_line "https://cdsco.gov.in/framed_pdf.jsp" e])).
Proof.
  destruct (unreadable_page_drops_document Sample.web Sample.iframe_of
              Sample.urljoin string Cases.three_pages
              Cases.second_page_unreadable
              3 "https://cdsco.gov.in/framed_pdf.jsp" Sample.start
              (mkResponse "framed_pdf" Sample.html_bytes)
              (mkTag [("src", "drugs.pdf")]) "drugs.pdf"
              (mkResponse "" Sample.pdf_bytes) [x2d; x31; x2e; x34]
              ["one"; "two"; "three"] "two"
              (Exn "RuntimeError" "page is damaged"))
    as (e & q & _ & _ & Hiter); try reflexivity.
  - simpl. auto.
  - exists e. exact Hiter.
Defined.

Lemma iteration_skips_iff_sample :
  iteration Sample.web Sample.iframe_of Sample.urljoin Sample.open_pdf
    Sample.page_text 1 "https://cdsco.gov.in/framed_html.jsp" Sample.start
  = Ok Sample.start.
Proof.
  apply (iteration_skips_iff Sample.web Sample.iframe_of Sample.urljoin string
           Sample.open_pdf Sample.page_text 1
           "https://cdsco.gov.in/framed_html.jsp" Sample.start).
  exists (mkResponse "framed_html" Sample.html_bytes).
  split; [reflexivity|]. right. right.
  exists (mkTag [("src", "page.html")]), "page.html",
         (mkResponse "page" Sample.html_bytes).
  repeat split. intros [rest Hrest]. discriminate Hrest.
Defined.

End IngestionMore.

(** ** Collecting the links *)

Module LinksFacts.
Import Links.

Lemma prefix_iff (a b : string) :
  String.prefix a b = true <-> exists rest, b = (a ++ rest)%string.
Proof.
  revert b. induction a as [|x a IH]; intros b.
  - destruct b; simpl; (split; [intros _; eexists; reflexivity | reflexivity]).
  - destruct b as [|y b]; simpl.
    + split; [discriminate | intros [rest Hrest]; discriminate Hrest].
    + destruct (ascii_dec x y) as [->|Hxy].
      * rewrite IH. split.
        -- intros [rest ->]. exists rest. reflexivity.
        -- intros [rest Hrest]. injection Hrest as ->. exists rest. reflexivity.
      * split; [discriminate|].
        intros [rest Hrest]. injection Hrest as Hyx _. congruence.
Qed.

(** The test [needle in haystack] holds exactly when the haystack is some
    text, the needle, and some more text. *)
Lemma str_in_iff (needle haystack : string) :
  str_in needle haystack = true
  <-> exists before after, haystack = (before ++ needle ++ after)%string.
Proof.
  split.
  - induction haystack as [|c haystack IH]; cbn [str_in];
      rewrite orb_true_iff.
    + intros [Hprefix|Hfalse]; [|discriminate].
      apply prefix_iff in Hprefix. destruct Hprefix as [rest ->].
      exists "", rest. reflexivity.
    + intros [Hprefix|Hlater].
      * apply prefix_iff in Hprefix. destruct Hprefix as [rest ->].
        exists "", rest. reflexivity.
      * destruct (IH Hlater) as (before & after & ->).
        exists (String c before), after. reflexivity.
  - intros (before & after & ->).
    induction before as [|c before IH].
    + cbn [append].
      destruct (needle ++ after)%string eqn:Hna; cbn [str_in];
        rewrite orb_true_iff; left; apply prefix_iff; exists after;
        symmetry; exact Hna.
    + cbn [append str_in]. rewrite orb_true_iff. right. exact IH.
Qed.

Section Facts.

Variable urljoin : string -> string -> result string.

Lemma collect_frame anchors : forall pdf_links,
  collect urljoin anchors pdf_links
  = map_result (fun found => pdf_links ++ found) (collect urljoin anchors []).
Proof.
  induction anchors as [|a anchors IH]; intros pdf_links; simpl.
  - unfold map_result. simpl. rewrite app_nil_r. reflexivity.
  - destruct (getitem a "href") as [href|e]; [|reflexivity].
    cbn [bind_result].
    destruct (str_in "download_file_division.jsp" href); [|apply IH].
    destruct (urljoin base_url href) as [full_url|e]; [|reflexivity].
    cbn [bind_result]. rewrite (IH (pdf_links ++ [full_url])).
    rewrite (IH [full_url]).
    unfold map_result.
    destruct (collect urljoin anchors []) as [found|e]; simpl;
      [rewrite <- app_assoc|]; reflexivity.
Qed.

Lemma collect_app anchors1 : forall anchors2 pdf_links,
  collect urljoin (anchors1 ++ anchors2) pdf_links
  = bind_result (collect urljoin anchors1 pdf_links) (collect urljoin anchors2).
Proof.
  induction anchors1 as [|a anchors1 IH]; intros anchors2 pdf_links; simpl.
  - reflexivity.
  - destruct (getitem a "href") as [href|e]; [|reflexivity].
    cbn [bind_result].
    destruct (str_in "download_file_division.jsp" href); [|apply IH].
    destruct (urljoin base_url href) as [full_url|e]; [|reflexivity].
    cbn [bind_result]. apply IH.
Qed.

(** When every tag carries an [href], as [find_all('a', href=True)]
    ensures, and [urljoin] returns for every [href] that has the text
    "download_file_division.jsp" in it, the loop ends without an
    exception; it collects at most one link per tag, and a link is
    collected exactly when it is what [urljoin(base_url, href)] returns
    for a tag whose [href] has that text somewhere in it. *)
Theorem extract_links_members anchors :
  (forall a, In a anchors ->
     Ingestion.get_attr (Ingestion.attrs a) "href" <> None) ->
  (forall a href, In a anchors ->
     Ingestion.get_attr (Ingestion.attrs a) "href" = Some href ->
     str_in "download_file_division.jsp" href = true ->
     exists full_url, urljoin base_url href = Ok full_url) ->
  exists pdf_links,
    extract_links urljoin anchors = Ok pdf_links
    /\ List.length pdf_links <= List.length anchors
    /\ (forall link,
          In link pdf_links
          <-> exists a before after,
                In a anchors
                /\ Ingestion.get_attr (Ingestion.attrs a) "href"
                   = Some (before ++ "download_file_division.jsp" ++ after)%string
                /\ urljoin base_url
                     (before ++ "download_file_division.jsp" ++ after)%string
                   = Ok link).
Proof.
  unfold extract_links.
  induction anchors as [|a anchors IH]; intros Hhref Hjoin.
  - exists []. split; [reflexivity|]. split; [simpl; lia|].
    intros link. split; [intros [] | intros (a & _ & _ & [] & _)].
  - destruct IH as (found & Hfound & Hcount & Hmem).
    { intros a' Ha'. apply Hhref. right. exact Ha'. }
    { intros a' href' Ha'. apply Hjoin. right. exact Ha'. }
    simpl. unfold getitem.
    destruct (Ingestion.get_attr (Ingestion.attrs a) "href") as [href|] eqn:Ha;
      [|exfalso; apply (Hhref a); [left; reflexivity | exact Ha]].
    cbn [bind_result].
    destruct (str_in "download_file_division.jsp" href) eqn:Htest.
    + destruct (Hjoin a href (or_introl eq_refl) Ha Htest) as [full_url Hurl].
      rewrite Hurl. cbn [bind_result]. rewrite collect_frame, Hfound.
      unfold map_result. cbn [bind_result app].
      exists (full_url :: found). split; [reflexivity|].
      split; [cbn [List.length]; lia|].
      intros link. split.
      * intros [<-|Hin].
        -- apply str_in_iff in Htest. destruct Htest as (before & after & Hshape).
           exists a, before, after. split; [left; reflexivity|].
           subst href. split; [exact Ha | exact Hurl].
        -- apply Hmem in Hin. destruct Hin as (a' & b' & c' & Ha' & Hrest).
           exists a', b', c'. split; [right; exact Ha' | exact Hrest].
      * intros (a' & b' & c' & [<-|Ha'] & Hget & Hlink).
        -- left. rewrite Ha in Hget. injection Hget as Hshape.
           rewrite <- Hshape in Hlink. congruence.
        -- right. apply Hmem. exists a', b', c'. auto.
    + exists found. split; [exact Hfound|]. split; [simpl; lia|].
      intros link. rewrite Hmem. split.
      * intros (a' & b' & c' & Ha' & Hrest).
        exists a', b', c'. split; [right; exact Ha' | exact Hrest].
      * intros (a' & b' & c' & [<-|Ha'] & Hget & Hlink).
        -- exfalso. rewrite Ha in Hget. injection Hget as Hhref_is.
           assert (Hyes : str_in "download_file_division.jsp" href = true).
           { apply str_in_iff. exists b', c'. exact Hhref_is. }
           rewrite Hyes in Htest. discriminate Htest.
        -- exists a', b', c'. auto.
Qed.

(** The links come out in the order of the tags, nothing is merged or
    dropped as a duplicate: the links of a list of tags in two parts are
    the links of the first part followed by the links of the second. *)
Theorem extract_links_app anchors1 anchors2 links1 links2 :
  extract_links urljoin anchors1 = Ok links1 ->
  extract_links urljoin anchors2 = Ok links2 ->
  extract_links urljoin (anchors1 ++ anchors2) = Ok (links1 ++ links2).
Proof.
  unfold extract_links. intros H1 H2.
  rewrite collect_app, H1. cbn [bind_result].
  rewrite collect_frame, H2. reflexivity.
Qed.


End Facts.

Lemma extract_links_members_sample :
  exists pdf_links,
    extract_links Cases.glue Cases.listing = Ok pdf_links
    /\ List.length pdf_links <= 3.
Proof.
  destruct (extract_links_members Cases.glue Cases.listing)
    as (pdf_links & Hrun & Hcount & _).
  - intros a [<-|[<-|[<-|[]]]]; discriminate.
  - intros a href [<-|[<-|[<-|[]]]] Hget Htest;
      injection Hget as <-; try discriminate Htest;
      eexists; reflexivity.
  - exists pdf_links. split; [exact Hrun | exact Hcount].
Defined.

Lemma extract_links_app_sample :
  extract_links Cases.glue (Cases.listing ++ Cases.listing)
  = Ok ([ "https://cdsco.gov.in/opencms/download_file_division.jsp?num_id=1";
          "https://cdsco.gov.in/opencms/download_file_division.jsp?num_id=2" ]
        ++ [ "https://cdsco.gov.in/opencms/download_file_division.jsp?num_id=1";
             "https://cdsco.gov.in/opencms/download_file_division.jsp?num_id=2" ]).
Proof.
  apply (extract_links_app Cases.glue Cases.listing Cases.listing); reflexivity.
Defined.


End LinksFacts.
